(** * Verification model of [donwloader.py] (Spotify liked songs downloader)

    Python [str] values are sequences of Unicode code points; they are
    modelled as [list N].  ASCII literals of the source are written with [u]. *)

From Stdlib Require Import String Ascii List NArith ZArith Bool Lia Permutation.
Import ListNotations.
Open Scope list_scope.

(** ** Python strings as lists of code points *)

Definition ustr := list N.

Fixpoint u (s : string) : ustr :=
  match s with
  | EmptyString => []
  | String c rest => N_of_ascii c :: u rest
  end.

Fixpoint ustr_eqb (a b : ustr) : bool :=
  match a, b with
  | [], [] => true
  | x :: a', y :: b' => N.eqb x y && ustr_eqb a' b'
  | _, _ => false
  end.

(** [s.startswith(p)] *)
Fixpoint prefixb (p s : ustr) : bool :=
  match p, s with
  | [], _ => true
  | x :: p', y :: s' => N.eqb x y && prefixb p' s'
  | _ :: _, [] => false
  end.

(** All suffixes of a string, longest first (the positions a regex search tries). *)
Fixpoint suffixes (s : ustr) : list ustr :=
  match s with
  | [] => [[]]
  | _ :: s' => s :: suffixes s'
  end.

(** [needle in hay] for Python strings. *)
Definition contains (needle hay : ustr) : bool :=
  existsb (prefixb needle) (suffixes hay).

(** ** [sanitize_filename]: [re.sub] with the raw character class of the nine
    characters below, replaced by the empty string. *)

(** The character class: less-than, greater-than, colon, double quote,
    slash, backslash, bar, question mark, star. *)
Definition reserved_chars : list N := [60; 62; 58; 34; 47; 92; 124; 63; 42]%N.

Definition is_reserved (c : N) : bool := existsb (N.eqb c) reserved_chars.

Fixpoint sanitize_filename (filename : ustr) : ustr :=
  match filename with
  | [] => []
  | c :: rest =>
      if is_reserved c then sanitize_filename rest
      else c :: sanitize_filename rest
  end.

(** ** [pathlib.Path.glob] on a one-segment pattern (Python 3.11, POSIX)

    [_WildcardSelector] compiles the segment with
    [re.compile(fnmatch.translate(pat)).fullmatch] (case-sensitive on POSIX)
    and tests it against the name of every entry of the directory.
    [fnmatch.translate] turns [*] into [.*], [?] into [.], a bracket
    expression [[...]] into a character set (a leading [!] negates it,
    [a-z] is a range, an empty range matches nothing) and escapes every
    other character; a [[] without a closing [\]] is a literal [[].
    The translation is wrapped in [(?s:...)], so [.] matches any code point. *)

Inductive gtok :=
| GStar
| GAny
| GSet (negated : bool) (items : list (N * N))
| GLit (c : N).

(** The items of a bracket expression: [a-b] is a range, any other
    character stands for itself. *)
Fixpoint set_items (stuff : ustr) : list (N * N) :=
  match stuff with
  | a :: 45%N :: b :: rest => (a, b) :: set_items rest
  | a :: rest => (a, a) :: set_items rest
  | [] => []
  end.

Definition set_of_stuff (stuff : ustr) : gtok :=
  match stuff with
  | 33%N :: body => GSet true (set_items body)
  | _ => GSet false (set_items stuff)
  end.

(** Up to the first [\]] (code point 93). *)
Fixpoint split_at_close (r : ustr) : option (ustr * ustr) :=
  match r with
  | [] => None
  | 93%N :: after => Some ([], after)
  | c :: r' =>
      match split_at_close r' with
      | Some (body, after) => Some (c :: body, after)
      | None => None
      end
  end.

(** The scan of [fnmatch.translate] after a [[]: skip a [!], then a
    leading [\]], then look for the closing [\]]. *)
Definition find_close (r : ustr) : option (ustr * ustr) :=
  let '(p1, r1) := match r with 33%N :: t => ([33%N], t) | _ => ([], r) end in
  let '(p2, r2) := match r1 with 93%N :: t => ([93%N], t) | _ => ([], r1) end in
  match split_at_close r2 with
  | Some (body, after) => Some (p1 ++ p2 ++ body, after)
  | None => None
  end.

(** [fnmatch.translate]; consecutive stars, which the source compresses
    into one, are kept apart here: [.*.*] and [.*] match the same names. *)
Fixpoint translate_aux (fuel : nat) (pat : ustr) : list gtok :=
  match fuel with
  | O => []
  | S f =>
      match pat with
      | [] => []
      | 42%N :: r => GStar :: translate_aux f r
      | 63%N :: r => GAny :: translate_aux f r
      | 91%N :: r =>
          match find_close r with
          | Some (stuff, after) => set_of_stuff stuff :: translate_aux f after
          | None => GLit 91 :: translate_aux f r
          end
      | c :: r => GLit c :: translate_aux f r
      end
  end.

Definition translate (pat : ustr) : list gtok := translate_aux (length pat) pat.

Definition in_items (c : N) (items : list (N * N)) : bool :=
  existsb (fun '(lo, hi) => N.leb lo c && N.leb c hi) items.

(** [fullmatch] of the translated pattern. *)
Fixpoint gmatch (p : list gtok) (s : ustr) : bool :=
  match p with
  | [] => match s with [] => true | _ => false end
  | GStar :: p' => existsb (gmatch p') (suffixes s)
  | GAny :: p' => match s with [] => false | _ :: s' => gmatch p' s' end
  | GSet neg items :: p' =>
      match s with
      | [] => false
      | c :: s' => xorb neg (in_items c items) && gmatch p' s'
      end
  | GLit c :: p' =>
      match s with
      | [] => false
      | c' :: s' => N.eqb c c' && gmatch p' s'
      end
  end.

Definition fnmatch (name pat : ustr) : bool := gmatch (translate pat) name.

(** [list(self.download_folder.glob(pattern))] on a listing of entry names. *)
Definition glob_names (listing : list ustr) (pattern : ustr) : list ustr :=
  filter (fun n => fnmatch n pattern) listing.

(** The existence check of [search_and_download_song]:
    [potential_files = list(self.download_folder.glob(f"{safe_filename}*"))]
    followed by [if potential_files]. *)
Definition exists_check (listing : list ustr) (safe_filename : ustr) : bool :=
  match glob_names listing (safe_filename ++ [42%N]) with
  | [] => false
  | _ => true
  end.

Example glob_literal_prefix :
  exists_check [u "Band - Song.mp3"] (u "Band - Song") = true.
Proof. reflexivity. Qed.

Example glob_bracket_class :
  exists_check [u "Band - Song [Live].mp3"] (u "Band - Song [Live]") = false.
Proof. reflexivity. Qed.

Example sanitize_sample :
  sanitize_filename (u "AC/DC - What? <Live>") = u "ACDC - What Live".
Proof. reflexivity. Qed.

(** ** Data: track descriptors, API items, JSON values *)

(** The [song_info] dict built by [get_liked_songs]; its keys, in insertion
    order, are the fields below. *)
Record song := mk_song {
  name : ustr;
  artist : ustr;
  album : ustr;
  duration_ms : Z;
  popularity : Z
}.

(** An item of [current_user_saved_tracks]: [item['track']] with the fields
    the source reads. *)
Record item := mk_item {
  it_name : ustr;
  it_artists : list ustr;
  it_album_name : ustr;
  it_duration_ms : Z;
  it_popularity : Z
}.

(** [sep.join(xs)] *)
Definition join (sep : ustr) (xs : list ustr) : ustr :=
  match xs with
  | [] => []
  | x :: xs' => x ++ concat (map (fun y => sep ++ y) xs')
  end.

Definition song_of_item (it : item) : song :=
  mk_song (it_name it) (join (u ", ") (it_artists it)) (it_album_name it)
          (it_duration_ms it) (it_popularity it).

Inductive jvalue := JStr (s : ustr) | JInt (z : Z).

(** The dict [song_info] as [json.dump] sees it: its items in insertion order. *)
Definition song_json (s : song) : list (ustr * jvalue) :=
  [(u "name", JStr (name s)); (u "artist", JStr (artist s));
   (u "album", JStr (album s)); (u "duration_ms", JInt (duration_ms s));
   (u "popularity", JInt (popularity s))].

(** ** Observable effects and the world *)

Inductive event :=
| EPrint (msg : ustr)
| EPrintN (pre : ustr) (n : nat) (post : ustr)   (* f-string with one number *)
| EMkdir (path : ustr)
| EAuth
| EPage (limit offset : Z)                       (* a catalog page request *)
| ESnapshot (path encoding : ustr) (indent : Z) (ensure_ascii : bool)
            (payload : list (list (ustr * jvalue)))
| EPrompt (count : nat)
| ESearch (search_query : ustr)
| EDownload (url outtmpl : ustr).

(** The trace of effects so far and the entry names of [Downloaded_Music]. *)
Record world := mk_world {
  w_trace : list event;
  w_dir : list ustr
}.

(** What the collaborators answer: Spotify, the terminal, the file system
    and yt-dlp. *)
Inductive search_result :=
| SearchRaises (e : ustr)
| SearchInfo (entries : option (list ustr)).   (* [None]: no ['entries'] key;
                                                  each entry by its ['webpage_url'] *)

(** What [ydl_download.download([url])] does in the folder.  A failed
    download or conversion raises and may leave files behind
    ([<identifier>.webm.part], or an unconverted [<identifier>.webm]),
    given by their extensions.  A successful one downloads
    [<identifier>.src], converts it to [<identifier>.ext], and deletes the
    original when the two differ (no [keepvideo]). *)
Inductive download_result :=
| DownloadRaises (leftovers : list ustr) (e : ustr)
| DownloadWrites (src ext : ustr).

(** [open(playlist_file, 'w', encoding='utf-8')] may raise (a read-only
    folder, say); [json.dump] may raise after the file was created (a full
    disk), leaving it incomplete. *)
Inductive save_result :=
| SaveOk
| SaveOpenRaises (e : ustr)
| SaveDumpRaises (e : ustr).

Record env := mk_env {
  env_auth : option ustr;                        (* [Some e]: authentication raises [e] *)
  env_page : nat -> Z -> Z -> (ustr + list item); (* n-th page call, limit, offset *)
  env_answer : ustr;                             (* the line typed at the prompt *)
  env_scan : ustr -> option ustr;                (* [Some e]: scandir inside [glob] raises OSError [e] *)
  env_search : ustr -> search_result;
  env_download : ustr -> download_result;
  env_order : list song -> list song;            (* the order in which [as_completed] yields *)
  env_save : save_result                         (* writing [playlist_info.json] *)
}.

(** ** A state and exception monad *)

Inductive outcome (A : Type) :=
| Ret (a : A)
| Exc (e : ustr)
| Diverge.
Arguments Ret {A} a.
Arguments Exc {A} e.
Arguments Diverge {A}.

Definition M (A : Type) := world -> outcome A * world.

Definition ret {A} (a : A) : M A := fun w => (Ret a, w).

Definition bind {A B} (m : M A) (k : A -> M B) : M B :=
  fun w =>
    match m w with
    | (Ret a, w') => k a w'
    | (Exc e, w') => (Exc e, w')
    | (Diverge, w') => (Diverge, w')
    end.

Notation "x <- m ;; k" := (bind m (fun x => k))
  (at level 61, m at next level, right associativity).
Notation "m ;;; k" := (bind m (fun _ => k))
  (at level 61, right associativity).

Definition raise {A} (e : ustr) : M A := fun w => (Exc e, w).

Definition diverge {A} : M A := fun w => (Diverge, w).

(** [try: m except Exception as e: h(str(e))] *)
Definition try_except {A} (m : M A) (h : ustr -> M A) : M A :=
  fun w =>
    match m w with
    | (Exc e, w') => h e w'
    | r => r
    end.

(** A future: the task's exception, if any, is kept for [future.result()]. *)
Definition attempt {A} (m : M A) : M (ustr + A) :=
  fun w =>
    match m w with
    | (Ret a, w') => (Ret (inr a), w')
    | (Exc e, w') => (Ret (inl e), w')
    | (Diverge, w') => (Diverge, w')
    end.

Definition emit (ev : event) : M unit :=
  fun w => (Ret tt, mk_world (w_trace w ++ [ev]) (w_dir w)).

Definition print (msg : ustr) : M unit := emit (EPrint msg).

Fixpoint emit_all (evs : list event) : M unit :=
  match evs with
  | [] => ret tt
  | ev :: evs' => emit ev ;;; emit_all evs'
  end.

(** ** Messages of the source *)

Definition check_mark : ustr := [10003%N].            (* U+2713 *)
Definition skip_mark : ustr := [9197%N; 65039%N].     (* U+23ED U+FE0F *)
Definition cross_mark : ustr := [10060%N].            (* U+274C *)
Definition folder_mark : ustr := [128193%N].          (* U+1F4C1 *)
Definition newline : ustr := [10%N].

Definition skipped_msg (query : ustr) : ustr :=
  skip_mark ++ u "  Skipped (already exists): " ++ query.
Definition downloaded_msg (query : ustr) : ustr :=
  check_mark ++ u " Downloaded: " ++ query.
Definition not_found_msg (query : ustr) : ustr :=
  cross_mark ++ u " Not found: " ++ query.
Definition error_msg (query e : ustr) : ustr :=
  cross_mark ++ u " Error downloading " ++ query ++ u ": " ++ e.

Definition dashes : ustr := repeat 45%N 50.

(** ** [SpotifyDownloader] methods *)

Definition download_folder : ustr := u "Downloaded_Music".

(** [self.download_folder.glob(pattern)]: the listing is read by [scandir],
    whose OSError other than PermissionError escapes [glob] in Python 3.11. *)
Definition glob (E : env) (pattern : ustr) : M (list ustr) :=
  fun w =>
    match env_scan E pattern with
    | Some e => (Exc e, w)
    | None => (Ret (glob_names (w_dir w) pattern), w)
    end.

(** [ydl.extract_info(search_query, download=False)], reduced to the
    [webpage_url] of each entry. *)
Definition extract_info (E : env) (search_query : ustr) : M (option (list ustr)) :=
  emit (ESearch search_query) ;;;
  match env_search E search_query with
  | SearchRaises e => raise e
  | SearchInfo entries => ret entries
  end.

(** A file named [fname] now exists in [Downloaded_Music]. *)
Definition write_file (fname : ustr) : M unit :=
  fun w =>
    (Ret tt,
     mk_world (w_trace w)
              (if existsb (ustr_eqb fname) (w_dir w) then w_dir w
               else w_dir w ++ [fname])).

(** The file named [fname] no longer exists in [Downloaded_Music]. *)
Definition remove_file (fname : ustr) : M unit :=
  fun w => (Ret tt, mk_world (w_trace w) (filter (fun n => negb (ustr_eqb fname n)) (w_dir w))).

Fixpoint write_files (fnames : list ustr) : M unit :=
  match fnames with
  | [] => ret tt
  | f :: fs => write_file f ;;; write_files fs
  end.

(** [ydl_download.download([url])] with [outtmpl] set to
    [Downloaded_Music/{safe_filename}.%(ext)s]: the files it writes are
    named [safe_filename.<ext>]. *)
Definition ydl_download (E : env) (url outtmpl safe_filename : ustr) : M unit :=
  emit (EDownload url outtmpl) ;;;
  match env_download E url with
  | DownloadRaises leftovers e =>
      write_files (map (fun x => safe_filename ++ u "." ++ x) leftovers) ;;; raise e
  | DownloadWrites src ext =>
      write_file (safe_filename ++ u "." ++ src) ;;;
      write_file (safe_filename ++ u "." ++ ext) ;;;
      if ustr_eqb src ext then ret tt else remove_file (safe_filename ++ u "." ++ src)
  end.

Definition search_and_download_song (E : env) (song_info : song) : M ustr :=
  let query := artist song_info ++ u " - " ++ name song_info in
  let safe_filename := sanitize_filename (artist song_info ++ u " - " ++ name song_info) in
  potential_files <- glob E (safe_filename ++ u "*") ;;
  match potential_files with
  | _ :: _ => ret (skipped_msg query)
  | [] =>
      try_except
        (let search_query := u "ytsearch1:" ++ query in
         info <- extract_info E search_query ;;
         match info with
         | Some (video_url :: _) =>
             ydl_download E video_url
               (download_folder ++ u "/" ++ safe_filename ++ u ".%(ext)s")
               safe_filename ;;;
             ret (downloaded_msg query)
         | _ => ret (not_found_msg query)
         end)
        (fun e => ret (error_msg query e))
  end.

(** ** [download_all_songs]

    The pool runs each task to completion; a task is modelled as running
    whole, in the order in which [as_completed] yields its future.  When
    [future.result()] raises, the loop is left, and leaving the
    [ThreadPoolExecutor] block waits for the remaining tasks ([drain]).
    The [time.sleep(0.5)] after each result has no observable effect here. *)

Fixpoint drain (E : env) (rest : list song) : M unit :=
  match rest with
  | [] => ret tt
  | sg :: rest' => attempt (search_and_download_song E sg) ;;; drain E rest'
  end.

Fixpoint process (E : env) (order : list song)
    (successful_downloads failed_downloads skipped_downloads : nat)
    : M (nat * nat * nat) :=
  match order with
  | [] => ret (successful_downloads, failed_downloads, skipped_downloads)
  | sg :: rest =>
      r <- attempt (search_and_download_song E sg) ;;
      match r with
      | inl e => drain E rest ;;; raise e
      | inr result =>
          print result ;;;
          if contains (u "Downloaded") result then
            process E rest (S successful_downloads) failed_downloads skipped_downloads
          else if contains (u "Skipped") result then
            process E rest successful_downloads failed_downloads (S skipped_downloads)
          else
            process E rest successful_downloads (S failed_downloads) skipped_downloads
      end
  end.

Definition summary_events (successful skipped failed : nat) : list event :=
  [EPrint dashes;
   EPrint (u "Download Summary:");
   EPrintN (check_mark ++ u " Successfully downloaded: ") successful [];
   EPrintN (skip_mark ++ u "  Skipped (already existed): ") skipped [];
   EPrintN (cross_mark ++ u " Failed: ") failed [];
   EPrint (folder_mark ++ u " Files saved to: " ++ download_folder)].

Definition download_all_songs (E : env) (songs : list song) : M unit :=
  emit (EPrintN (newline ++ u "Starting download of ") (length songs) (u " songs...")) ;;;
  print (u "Download folder: " ++ download_folder) ;;;
  print dashes ;;;
  counts <- process E (env_order E songs) 0 0 0 ;;
  match counts with
  | (successful, failed, skipped) => emit_all (summary_events successful skipped failed)
  end.

(** ** [get_liked_songs] *)

Definition limit : Z := 50.

(** The [n]-th call of [self.sp.current_user_saved_tracks(limit=limit, offset=offset)]. *)
Definition current_user_saved_tracks (E : env) (n : nat) (lim offset : Z) : M (list item) :=
  emit (EPage lim offset) ;;;
  match env_page E n lim offset with
  | inl e => raise e
  | inr items => ret items
  end.

(** The [while True] loop; [fuel] bounds the number of iterations, and
    running out of it stands for a loop that does not stop. *)
Fixpoint fetch_loop (E : env) (fuel n : nat) (offset : Z) (liked_songs : list song)
    : M (list song) :=
  match fuel with
  | O => diverge
  | S fuel' =>
      items <- current_user_saved_tracks E n limit offset ;;
      match items with
      | [] => ret liked_songs
      | _ :: _ =>
          let liked_songs' := liked_songs ++ map song_of_item items in
          emit (EPrintN (u "Fetched ") (length liked_songs') (u " songs so far...")) ;;;
          fetch_loop E fuel' (S n) (offset + limit) liked_songs'
      end
  end.

Definition get_liked_songs (E : env) (authenticated : bool) (fuel : nat) : M (list song) :=
  if negb authenticated then raise (u "Not authenticated with Spotify") else
  print (u "Fetching liked songs from Spotify...") ;;;
  liked_songs <- fetch_loop E fuel 0 0 [] ;;
  emit (EPrintN (check_mark ++ u " Found ") (length liked_songs) (u " liked songs")) ;;;
  ret liked_songs.

(** ** [authenticate_spotify], [save_playlist_info] and [main] *)

Definition authenticate_spotify (E : env) : M unit :=
  match env_auth E with
  | Some e => raise e
  | None => emit EAuth ;;; print (check_mark ++ u " Successfully authenticated with Spotify")
  end.

Definition playlist_file : ustr := download_folder ++ u "/playlist_info.json".

(** [json.dump(songs, f, indent=2, ensure_ascii=False)] into a file opened
    with [encoding='utf-8']. *)
Definition save_playlist_info (E : env) (songs : list song) : M unit :=
  match env_save E with
  | SaveOpenRaises e => raise e
  | SaveDumpRaises e => write_file (u "playlist_info.json") ;;; raise e
  | SaveOk =>
      write_file (u "playlist_info.json") ;;;
      emit (ESnapshot playlist_file (u "utf-8") 2 false (map song_json songs)) ;;;
      print (check_mark ++ u " Playlist info saved to: " ++ playlist_file)
  end.

(** [input(...)], the prompt reporting the number of songs. *)
Definition input (E : env) (count : nat) : M ustr :=
  emit (EPrompt count) ;;; ret (env_answer E).

(** [str.lower()] on the ASCII letters. *)
Definition lower (s : ustr) : ustr :=
  map (fun c => if (N.leb 65 c && N.leb c 90)%bool then (c + 32)%N else c) s.

Definition placeholder_client_id : ustr := u "your_spotify_client_id_here".

(** [main], with the [CLIENT_ID] constant (to be replaced by the user's own)
    as a parameter. *)
Definition main (CLIENT_ID : ustr) (E : env) (fuel : nat) : M unit :=
  print (u "Spotify Liked Songs Downloader") ;;;
  print (repeat 61%N 40) ;;;
  if ustr_eqb CLIENT_ID placeholder_client_id then
    emit_all
      [EPrint (cross_mark ++ u " Please set up your Spotify API credentials first!");
       EPrint (newline ++ u "To get your credentials:");
       EPrint (u "1. Go to https://developer.spotify.com/dashboard");
       EPrint (u "2. Create a new app");
       EPrint (u "3. Copy your Client ID and Client Secret");
       EPrint (u "4. Add 'http://localhost:8888/callback' as a redirect URI");
       EPrint (u "5. Replace the credentials in this script")]
  else
    try_except
      (emit (EMkdir download_folder) ;;;
       authenticate_spotify E ;;;
       liked_songs <- get_liked_songs E true fuel ;;
       match liked_songs with
       | [] => print (u "No liked songs found!")
       | _ :: _ =>
           save_playlist_info E liked_songs ;;;
           response <- input E (length liked_songs) ;;
           if negb (ustr_eqb (lower response) (u "y")) then print (u "Download cancelled.")
           else download_all_songs E liked_songs
       end)
      (fun e => print (cross_mark ++ u " An error occurred: " ++ e)).

(** The process exit status of [python donwloader.py]: [main()] returning
    gives 0, an exception escaping it gives 1. *)
Definition exit_code (o : outcome unit) : option Z :=
  match o with
  | Ret _ => Some 0%Z
  | Exc _ => Some 1%Z
  | Diverge => None
  end.

(** ** A sample run: one page of two liked songs, then an empty page *)

Definition band_song : song := mk_song (u "Song") (u "Band") (u "X") 200000 50.

Definition sample_items : list item :=
  [mk_item (u "Song") [u "Band"] (u "X") 200000 50;
   mk_item (u "Duet") [u "A"; u "B"] (u "Y") 180000 70].

Definition sample_pages (pages : list (list item)) (n : nat) (_ _ : Z) : ustr + list item :=
  inr (nth n pages []).

(** Every collaborator succeeds: a search finds [url:<query>], the download
    writes an mp3. *)
Definition happy_env (pages : list (list item)) (answer : ustr) : env :=
  mk_env None (sample_pages pages) answer (fun _ => None)
         (fun sq => SearchInfo (Some [u "url:" ++ sq]))
         (fun _ => DownloadWrites (u "webm") (u "mp3"))
         (fun songs => songs) SaveOk.

Definition empty_world : world := mk_world [] [].

Example sample_fetch :
  fst (get_liked_songs (happy_env [sample_items] (u "y")) true 5 empty_world)
  = Ret (map song_of_item sample_items).
Proof. reflexivity. Qed.

Example sample_artist_join :
  artist (song_of_item (nth 1 sample_items (mk_item [] [] [] 0 0))) = u "A, B".
Proof. reflexivity. Qed.

Example sample_main_downloads :
  w_dir (snd (main (u "id") (happy_env [sample_items] (u "Y")) 5 empty_world))
  = [u "playlist_info.json"; u "Band - Song.mp3"; u "A, B - Duet.mp3"].
Proof. vm_compute. reflexivity. Qed.

Example sample_second_run_skips :
  let w1 := snd (main (u "id") (happy_env [sample_items] (u "y")) 5 empty_world) in
  let w2 := snd (main (u "id") (happy_env [sample_items] (u "y")) 5 (mk_world [] (w_dir w1))) in
  In (EPrintN (skip_mark ++ u "  Skipped (already existed): ") 2 []) (w_trace w2).
Proof. vm_compute. repeat (first [left; reflexivity | right]). Qed.

(** ** Generic lemmas *)

Lemma is_reserved_spec : forall c, is_reserved c = true <-> In c reserved_chars.
Proof.
  intro c. unfold is_reserved. rewrite existsb_exists. split.
  - intros [x [Hin Heq]]. apply N.eqb_eq in Heq. subst. exact Hin.
  - intro Hin. exists c. split; [exact Hin | apply N.eqb_refl].
Qed.

Lemma sanitize_filename_filter :
  forall x, sanitize_filename x = filter (fun c => negb (is_reserved c)) x.
Proof.
  induction x as [| c x IH]; simpl; [reflexivity |].
  destruct (is_reserved c); simpl; rewrite IH; reflexivity.
Qed.

Lemma suffixes_nil : forall s, In [] (suffixes s).
Proof. induction s; simpl; auto. Qed.

Lemma gmatch_star_end : forall s, gmatch [GStar] s = true.
Proof.
  intro s. simpl. apply existsb_exists. exists []. split; [apply suffixes_nil | reflexivity].
Qed.

Lemma gmatch_lits_star :
  forall p s, gmatch (map GLit p ++ [GStar]) s = prefixb p s.
Proof.
  induction p as [| c p IH]; intro s.
  - apply gmatch_star_end.
  - destruct s as [| c' s]; simpl; [reflexivity |]. rewrite IH. reflexivity.
Qed.

Definition glob_meta (c : N) : bool := (N.eqb c 42 || N.eqb c 63 || N.eqb c 91)%bool.

Lemma translate_aux_lits_star :
  forall p fuel, forallb (fun c => negb (glob_meta c)) p = true ->
    length p < fuel ->
    translate_aux fuel (p ++ [42%N]) = map GLit p ++ [GStar].
Proof.
  induction p as [| c p IH]; intros fuel Hp Hf; destruct fuel as [| fuel]; simpl in *; try lia.
  - destruct fuel; reflexivity.
  - apply andb_prop in Hp as [Hc Hp]. unfold glob_meta in Hc.
    destruct (N.eqb_spec c 42); [discriminate |].
    destruct (N.eqb_spec c 63); [discriminate |].
    destruct (N.eqb_spec c 91); [discriminate |].
    rewrite (IH fuel Hp ltac:(lia)).
    destruct c as [| q]; [reflexivity |].
    repeat (destruct q as [q|q|]; try reflexivity; try congruence).
Qed.

(** Where the identifier holds none of [*], [?] and [[], the glob test is a
    prefix test. *)
Lemma exists_check_prefix :
  forall listing ident, forallb (fun c => negb (glob_meta c)) ident = true ->
    exists_check listing ident = existsb (prefixb ident) listing.
Proof.
  intros listing ident Hid. unfold exists_check, glob_names, fnmatch, translate.
  rewrite translate_aux_lits_star; [| exact Hid | rewrite length_app; simpl; lia].
  induction listing as [| n listing IH]; simpl; [reflexivity |].
  rewrite gmatch_lits_star. destruct (prefixb ident n); simpl; [reflexivity | exact IH].
Qed.

Lemma filter_idem {A} (f : A -> bool) (l : list A) : filter f (filter f l) = filter f l.
Proof.
  induction l as [| a l IH]; simpl; [reflexivity |].
  destruct (f a) eqn:Ha; simpl; [rewrite Ha, IH |]; congruence.
Qed.

(** ** Claims on the sanitizer and the existence check *)

(** C4: [sanitize_filename] removes exactly the nine characters
    less-than, greater-than, colon, double quote, slash, backslash, bar,
    question mark and star (the code points of [reserved_chars]) and keeps
    every other code point, Unicode included, in its order; a function is
    total and deterministic, and the sanitizer is idempotent. *)
Theorem sanitize_filename_removes_reserved :
  forall x : ustr,
    sanitize_filename x = filter (fun c => negb (is_reserved c)) x /\
    (forall c, is_reserved c = true <-> In c [60; 62; 58; 34; 47; 92; 124; 63; 42]%N) /\
    (forall c, In c (sanitize_filename x) <-> In c x /\ ~ In c reserved_chars) /\
    sanitize_filename (sanitize_filename x) = sanitize_filename x.
Proof.
  intro x. rewrite !sanitize_filename_filter. split; [reflexivity |]. split.
  { exact is_reserved_spec. }
  split.
  - intro c. rewrite filter_In, <- is_reserved_spec.
    destruct (is_reserved c); simpl; intuition congruence.
  - apply filter_idem.
Qed.

(** C3 (code bug): [glob(f"{safe_filename}*")] does not escape the glob
    metacharacter [[] in the identifier, which [sanitize_filename] keeps.
    A bracketed part of a title is read as a character class: a file whose
    name starts with the identifier is not found, and a file whose name does
    not start with it is. *)
Theorem exists_check_bracket_title :
  let ident := u "Band - Song [Live]" in
  (existsb (prefixb ident) [u "Band - Song [Live].mp3"] = true /\
   exists_check [u "Band - Song [Live].mp3"] ident = false) /\
  (existsb (prefixb ident) [u "Band - Song L.mp3"] = false /\
   exists_check [u "Band - Song L.mp3"] ident = true) /\
  exists_check [] ident = false.
Proof. vm_compute. repeat split. Qed.

(** ** Effects only extend the trace *)

Definition extends {A} (P : event -> Prop) (m : M A) : Prop :=
  forall w, exists tr, w_trace (snd (m w)) = w_trace w ++ tr /\ Forall P tr.

Section Extends.
Variable P : event -> Prop.

Lemma extends_ret {A} (a : A) : extends P (ret a).
  Proof. intro w. exists []. split; [symmetry; apply app_nil_r | constructor]. Qed.

Lemma extends_raise {A} (e : ustr) : extends P (@raise A e).
  Proof. intro w. exists []. split; [symmetry; apply app_nil_r | constructor]. Qed.

Lemma extends_diverge {A} : extends P (@diverge A).
  Proof. intro w. exists []. split; [symmetry; apply app_nil_r | constructor]. Qed.

Lemma extends_emit ev : P ev -> extends P (emit ev).
  Proof. intros H w. exists [ev]. split; [reflexivity | auto]. Qed.

Lemma extends_write_file f : extends P (write_file f).
  Proof. intro w. exists []. split; [symmetry; apply app_nil_r | constructor]. Qed.

Lemma extends_glob E pat : extends P (glob E pat).
  Proof.
    intro w. exists []. unfold glob.
    destruct (env_scan E pat); (split; [symmetry; apply app_nil_r | constructor]).
  Qed.

Lemma extends_bind {A B} (m : M A) (k : A -> M B) :
    extends P m -> (forall a, extends P (k a)) -> extends P (bind m k).
  Proof.
    intros Hm Hk w. unfold bind. destruct (Hm w) as [tr1 [H1 F1]].
    destruct (m w) as [[a | e |] w1]; simpl in *.
    - destruct (Hk a w1) as [tr2 [H2 F2]]. exists (tr1 ++ tr2).
      split; [rewrite H2, H1, app_assoc; reflexivity | apply Forall_app; auto].
    - exists tr1. auto.
    - exists tr1. auto.
  Qed.

Lemma extends_try {A} (m : M A) (h : ustr -> M A) :
    extends P m -> (forall e, extends P (h e)) -> extends P (try_except m h).
  Proof.
    intros Hm Hh w. unfold try_except. destruct (Hm w) as [tr1 [H1 F1]].
    destruct (m w) as [[a | e |] w1]; simpl in *.
    - exists tr1. auto.
    - destruct (Hh e w1) as [tr2 [H2 F2]]. exists (tr1 ++ tr2).
      split; [rewrite H2, H1, app_assoc; reflexivity | apply Forall_app; auto].
    - exists tr1. auto.
  Qed.

Lemma extends_attempt {A} (m : M A) : extends P m -> extends P (attempt m).
  Proof.
    intros Hm w. unfold attempt. destruct (Hm w) as [tr1 [H1 F1]].
    destruct (m w) as [[a | e |] w1]; simpl in *; exists tr1; auto.
  Qed.

Lemma extends_remove_file f : extends P (remove_file f).
  Proof. intro w. exists []. split; [symmetry; apply app_nil_r | constructor]. Qed.

Lemma extends_write_files fs : extends P (write_files fs).
  Proof.
    induction fs; cbn [write_files]; [apply extends_ret |].
    apply extends_bind; [apply extends_write_file | intros; assumption].
  Qed.

Lemma extends_emit_all evs : Forall P evs -> extends P (emit_all evs).
  Proof.
    induction 1; simpl; [apply extends_ret |].
    apply extends_bind; [apply extends_emit; assumption | intros; assumption].
  Qed.
End Extends.

Create HintDb extends_db.
#[local] Hint Resolve extends_ret extends_raise extends_diverge extends_write_file
  extends_glob extends_remove_file extends_write_files : extends_db.

Ltac extends_step :=
  match goal with
  | |- extends _ (bind _ _) => apply extends_bind; [| intro]
  | |- extends _ (try_except _ _) => apply extends_try; [| intro]
  | |- extends _ (attempt _) => apply extends_attempt
  | |- extends _ (emit _) => apply extends_emit; simpl
  | |- extends _ (emit_all _) => apply extends_emit_all; repeat constructor
  | |- extends _ (match ?x with _ => _ end) => destruct x
  | |- extends _ (if ?b then _ else _) => destruct b
  | |- extends _ _ => solve [auto with extends_db]
  end.

(** Events of the catalog snapshot, the prompt and the per-track work. *)
Definition is_snapshot (ev : event) : bool :=
  match ev with ESnapshot _ _ _ _ _ => true | _ => false end.

Definition download_phase (ev : event) : bool :=
  match ev with
  | ESnapshot _ _ _ _ _ | EPrompt _ | ESearch _ | EDownload _ _ => true
  | _ => false
  end.

Lemma task_extends E sg : extends (fun ev => is_snapshot ev = false) (search_and_download_song E sg).
Proof.
  unfold search_and_download_song, extract_info, ydl_download, print.
  repeat extends_step; reflexivity.
Qed.

Lemma drain_extends E rest : extends (fun ev => is_snapshot ev = false) (drain E rest).
Proof.
  induction rest; simpl; repeat extends_step; auto using task_extends.
Qed.

Lemma process_extends E order :
  forall a b c, extends (fun ev => is_snapshot ev = false) (process E order a b c).
Proof.
  induction order as [| sg rest IH]; intros; simpl; unfold print;
    repeat extends_step; auto using task_extends, drain_extends.
Qed.

Lemma download_all_songs_extends E songs :
  extends (fun ev => is_snapshot ev = false) (download_all_songs E songs).
Proof.
  unfold download_all_songs, print. repeat extends_step; auto using process_extends.
Qed.

Lemma fetch_loop_extends E fuel :
  forall n off acc, extends (fun ev => download_phase ev = false) (fetch_loop E fuel n off acc).
Proof.
  induction fuel as [| fuel IH]; intros; simpl;
    unfold current_user_saved_tracks; repeat extends_step; auto.
Qed.

Lemma get_liked_songs_extends E auth fuel :
  extends (fun ev => download_phase ev = false) (get_liked_songs E auth fuel).
Proof.
  unfold get_liked_songs, print. repeat extends_step; auto using fetch_loop_extends.
Qed.

(** ** Per-track task *)


(** C7: when the single-result search of a track yields no entry (an empty
    [entries] list, or no [entries] key), the task writes no file and starts
    no download, and whenever it did run that search its result is the
    Not-found message. *)
Theorem not_found_no_download :
  forall E sg w,
    let query := artist sg ++ u " - " ++ name sg in
    (env_search E (u "ytsearch1:" ++ query) = SearchInfo None \/
     env_search E (u "ytsearch1:" ++ query) = SearchInfo (Some [])) ->
    w_dir (snd (search_and_download_song E sg w)) = w_dir w /\
    exists tr,
      w_trace (snd (search_and_download_song E sg w)) = w_trace w ++ tr /\
      (forall url outtmpl, ~ In (EDownload url outtmpl) tr) /\
      (In (ESearch (u "ytsearch1:" ++ query)) tr ->
       fst (search_and_download_song E sg w) = Ret (not_found_msg query)).
Proof.
  intros E sg w query Hsearch.
  unfold search_and_download_song, bind, glob, try_except, extract_info, emit, ret, raise.
  fold query.
  remember (u "ytsearch1:" ++ query) as sq eqn:Hsq.
  remember (sanitize_filename query ++ u "*") as pat eqn:Hpat.
  destruct (env_scan E pat) as [e |]; simpl.
  { split; [reflexivity |]. exists []. rewrite app_nil_r.
    split; [reflexivity |]. split; [intros ? ? [] | intros []]. }
  destruct (glob_names (w_dir w) pat); simpl.
  - destruct Hsearch as [H | H]; rewrite H; simpl;
      (split; [reflexivity |]; eexists; split; [reflexivity |];
       split; [intros ? ? [Hc | []]; discriminate | reflexivity]).
  - split; [reflexivity |]. exists []. rewrite app_nil_r.
    split; [reflexivity |]. split; [intros ? ? [] | intros []].
Qed.

Lemma not_found_no_download_witness :
  let E := mk_env None (sample_pages []) (u "y") (fun _ => None)
                  (fun _ => SearchInfo (Some [])) (fun _ => DownloadWrites (u "webm") (u "mp3"))
                  (fun songs => songs) SaveOk in
  (env_search E (u "ytsearch1:" ++ artist band_song ++ u " - " ++ name band_song)
     = SearchInfo None \/
   env_search E (u "ytsearch1:" ++ artist band_song ++ u " - " ++ name band_song)
     = SearchInfo (Some [])) /\
  w_dir (snd (search_and_download_song E band_song empty_world)) = w_dir empty_world /\
  fst (search_and_download_song E band_song empty_world)
    = Ret (not_found_msg (u "Band - Song")).
Proof.
  intro E. split; [right; reflexivity |].
  split; [apply (not_found_no_download E band_song empty_world); right; reflexivity |].
  destruct (not_found_no_download E band_song empty_world (or_intror eq_refl))
    as [_ [tr [Htr [_ Hnf]]]].
  apply Hnf. vm_compute in Htr. subst tr. left. reflexivity.
Defined.

(** How the download call ends: it raises, or it returns. *)
Definition download_outcome (d : download_result) : outcome unit :=
  match d with
  | DownloadRaises _ e => Exc e
  | DownloadWrites _ _ => Ret tt
  end.

Lemma write_files_run fs : forall w, exists dir, write_files fs w = (Ret tt, mk_world (w_trace w) dir).
Proof.
  induction fs as [| f fs IH]; intro w; cbn [write_files].
  - exists (w_dir w). destruct w; reflexivity.
  - unfold bind at 1, write_file.
    match goal with |- context [write_files fs ?w1] =>
      destruct (IH w1) as [dir H]; rewrite H; exists dir; reflexivity end.
Qed.

(** The download call records its start and touches only the folder. *)
Lemma ydl_download_run E url outtmpl safe w :
  exists dir, ydl_download E url outtmpl safe w
              = (download_outcome (env_download E url),
                 mk_world (w_trace w ++ [EDownload url outtmpl]) dir).
Proof.
  unfold ydl_download, bind at 1, emit. cbn [w_trace w_dir].
  destruct (env_download E url) as [left e | src ext]; cbn [download_outcome].
  - unfold bind. match goal with |- context [write_files ?fs ?w0] =>
      destruct (write_files_run fs w0) as [dir Hw]; rewrite Hw end.
    exists dir. reflexivity.
  - unfold bind, write_file. cbn [w_trace w_dir].
    destruct (ustr_eqb src ext); [eexists; reflexivity |].
    unfold remove_file. eexists. reflexivity.
Qed.

Ltac run_download :=
  match goal with
  | |- context [ydl_download ?E ?a ?b ?c ?d] =>
      let dir := fresh "dir" in let Hd := fresh "Hd" in
      destruct (ydl_download_run E a b c d) as [dir Hd]; rewrite Hd;
      destruct (env_download E a); cbn [download_outcome]
  end.

Ltac unfold_task :=
  unfold search_and_download_song, bind, glob, try_except, extract_info,
    emit, ret, raise.

Lemma task_returns E sg w :
  env_scan E (sanitize_filename (artist sg ++ u " - " ++ name sg) ++ u "*") = None ->
  exists m w', search_and_download_song E sg w = (Ret m, w').
Proof.
  intro Hs. unfold_task.
  remember (sanitize_filename (artist sg ++ u " - " ++ name sg) ++ u "*") as pat eqn:Hpat.
  rewrite Hs. destruct (glob_names (w_dir w) pat); [| eauto].
  simpl. destruct (env_search E _) as [e | [[| url rest] |]]; simpl; eauto.
  run_download; eauto.
Qed.

Lemma task_no_diverge E sg w : fst (search_and_download_song E sg w) <> Diverge.
Proof.
  unfold_task.
  destruct (env_scan E _); [discriminate |]. destruct (glob_names _ _); [| discriminate].
  simpl. destruct (env_search E _) as [e | [[| url rest] |]]; simpl; try discriminate.
  run_download; discriminate.
Qed.

Lemma drain_ret E rest : forall w, fst (drain E rest w) = Ret tt.
Proof.
  induction rest as [| sg rest IH]; intro w; [reflexivity |].
  simpl. unfold bind at 1, attempt.
  pose proof (task_no_diverge E sg w) as Hnd.
  destruct (search_and_download_song E sg w) as [[m | e |] w1]; simpl; auto.
  contradiction.
Qed.

Lemma emit_all_run evs : forall w, emit_all evs w = (Ret tt, mk_world (w_trace w ++ evs) (w_dir w)).
Proof.
  induction evs as [| ev evs IH]; intro w; simpl.
  - rewrite app_nil_r. destruct w; reflexivity.
  - unfold bind at 1, emit. rewrite IH. simpl. rewrite <- app_assoc. reflexivity.
Qed.

(** C2 (corrected): inside the task, an exception of the search or of the
    download is caught and turned into the Error message, and a task whose
    directory scan succeeds always returns a message; the sanitization and
    the existence check run before the [try], so an OSError of the directory
    scan escapes the task, and [future.result()] re-raises it in the
    coordinator loop, which ends with that exception (the remaining tasks
    still run to completion). *)
Theorem task_catches_search_and_download_errors :
  forall E sg w,
    let query := artist sg ++ u " - " ++ name sg in
    let safe := sanitize_filename (artist sg ++ u " - " ++ name sg) in
    (env_scan E (safe ++ u "*") = None ->
       (exists m, fst (search_and_download_song E sg w) = Ret m) /\
       (exists_check (w_dir w) safe = false ->
          (forall e, env_search E (u "ytsearch1:" ++ query) = SearchRaises e ->
             fst (search_and_download_song E sg w) = Ret (error_msg query e)) /\
          (forall url rest leftovers e,
             env_search E (u "ytsearch1:" ++ query) = SearchInfo (Some (url :: rest)) ->
             env_download E url = DownloadRaises leftovers e ->
             fst (search_and_download_song E sg w) = Ret (error_msg query e)))) /\
    (forall e, env_scan E (safe ++ u "*") = Some e ->
       search_and_download_song E sg w = (Exc e, w) /\
       (forall order a b c,
          fst (process E (sg :: order) a b c w) = Exc e /\
          fst (drain E order w) = Ret tt)).
Proof.
  intros E sg w query safe. split.
  - intro Hs. split.
    + destruct (task_returns E sg w Hs) as [m [w' H]]. exists m. rewrite H. reflexivity.
    + intro Hx. unfold exists_check in Hx. change [42%N] with (u "*") in Hx.
      split.
      * intros e He. unfold_task. fold safe; fold query. rewrite Hs.
        destruct (glob_names (w_dir w) (safe ++ u "*")); [| discriminate].
        rewrite He. reflexivity.
      * intros url rest leftovers e He Hdl. unfold_task. fold safe; fold query. rewrite Hs.
        destruct (glob_names (w_dir w) (safe ++ u "*")); [| discriminate].
        rewrite He. simpl.
        match goal with |- context [ydl_download E url ?b ?c ?d] =>
          destruct (ydl_download_run E url b c d) as [dir Hd]; rewrite Hd end.
        rewrite Hdl. reflexivity.
  - intros e Hs.
    assert (Ht : search_and_download_song E sg w = (Exc e, w)).
    { unfold search_and_download_song, bind, glob. fold safe; fold query. rewrite Hs. reflexivity. }
    split; [exact Ht |]. intros order a b c. split; [| apply drain_ret].
    simpl. unfold bind at 1, attempt. rewrite Ht. unfold bind, raise.
    pose proof (drain_ret E order w) as Hd.
    destruct (drain E order w) as [o w1]. simpl in Hd. subst o. reflexivity.
Qed.

Lemma task_catches_search_and_download_errors_witness :
  let E := mk_env None (sample_pages []) (u "y") (fun _ => None)
                  (fun sq => SearchRaises (u "HTTP Error 429: Too Many Requests"))
                  (fun _ => DownloadWrites (u "webm") (u "mp3")) (fun songs => songs) SaveOk in
  env_scan E (sanitize_filename (u "Band - Song") ++ u "*") = None /\
  exists_check (w_dir empty_world) (sanitize_filename (u "Band - Song")) = false /\
  fst (search_and_download_song E band_song empty_world)
    = Ret (error_msg (u "Band - Song") (u "HTTP Error 429: Too Many Requests")).
Proof.
  intro E. split; [reflexivity |]. split; [reflexivity |].
  destruct (task_catches_search_and_download_errors E band_song empty_world) as [H _].
  destruct (H eq_refl) as [_ H2]. destruct (H2 eq_refl) as [H3 _].
  apply H3. reflexivity.
Defined.

(** The run of C2's counterexample input: the directory scan of the only
    task raises. *)
Definition scan_error : ustr := u "[Errno 5] Input/output error: 'Downloaded_Music'".

Definition scan_error_env : env :=
  mk_env None (sample_pages [sample_items]) (u "y") (fun _ => Some scan_error)
         (fun sq => SearchInfo (Some [u "url:" ++ sq]))
         (fun _ => DownloadWrites (u "webm") (u "mp3")) (fun songs => songs) SaveOk.

(** C2 counterexample: the exception of the existence check is not turned
    into an Error result; it leaves the task. *)
Lemma task_scan_error_escapes :
  search_and_download_song scan_error_env band_song empty_world
  = (Exc scan_error, empty_world) /\
  (forall m, fst (search_and_download_song scan_error_env band_song empty_world)
             <> Ret (error_msg (u "Band - Song") m)).
Proof. split; [reflexivity | intros m H; discriminate H]. Qed.

(** ** Coordinator *)

Definition scan_ok (E : env) (sg : song) : Prop :=
  env_scan E (sanitize_filename (artist sg ++ u " - " ++ name sg) ++ u "*") = None.

Lemma process_counts E order :
  (forall sg, In sg order -> scan_ok E sg) ->
  forall a b c w, exists d f s w',
    process E order a b c w = (Ret (d, f, s), w') /\
    d + f + s = a + b + c + length order.
Proof.
  induction order as [| sg rest IH]; intros Hok a b c w.
  - exists a, b, c, w. split; [reflexivity | simpl; lia].
  - destruct (task_returns E sg w (Hok sg (or_introl eq_refl))) as [m [w1 Ht]].
    assert (Hrest : forall sg', In sg' rest -> scan_ok E sg') by (intros; apply Hok; right; auto).
    simpl. unfold bind at 1, attempt. rewrite Ht. unfold bind at 1, print, emit.
    repeat match goal with |- context [if ?cond then _ else _] => destruct cond end;
      match goal with
      | |- context [process E rest ?a' ?b' ?c' ?w'] =>
          destruct (IH Hrest a' b' c' w') as [d [f [s [w2 [Hp Hn]]]]]
      end;
      exists d, f, s, w2; (split; [exact Hp | simpl in *; lia]).
Qed.

(** C1 (corrected): in a run where the directory scan of no task raises,
    every submitted task yields one result message, the coordinator
    completes, and its summary reports counts
    [successful + skipped + failed] equal to the number of submitted
    tracks (the single [failed] tally covers Not found and Error). *)
Theorem coordinator_total_accounting :
  forall E songs w,
    (forall sg, In sg songs -> scan_ok E sg) ->
    Permutation songs (env_order E songs) ->
    fst (download_all_songs E songs w) = Ret tt /\
    exists tr d s f,
      w_trace (snd (download_all_songs E songs w))
        = w_trace w ++ tr ++ summary_events d s f /\
      d + s + f = length songs.
Proof.
  intros E songs w Hok Hperm.
  assert (Hok' : forall sg, In sg (env_order E songs) -> scan_ok E sg)
    by (intros sg Hin; apply Hok; eapply Permutation_in; [symmetry; exact Hperm | exact Hin]).
  unfold download_all_songs, bind, print, emit. cbn [w_trace w_dir fst snd].
  match goal with
  | |- context [process E ?o 0 0 0 ?w0] =>
      destruct (process_counts E o Hok' 0 0 0 w0) as [d [f [s [w1 [Hp Hn]]]]];
      destruct (process_extends E o 0 0 0 w0) as [tr [Htr _]]
  end.
  rewrite Hp in *. cbn [fst snd w_trace w_dir] in *. rewrite emit_all_run. cbn [fst snd w_trace].
  split; [reflexivity |].
  exists ([EPrintN (newline ++ u "Starting download of ") (length songs) (u " songs...");
           EPrint (u "Download folder: " ++ download_folder); EPrint dashes] ++ tr), d, s, f.
  split.
  - rewrite Htr, <- !app_assoc. reflexivity.
  - rewrite <- (Permutation_length Hperm) in Hn. lia.
Qed.

Lemma coordinator_total_accounting_witness :
  let E := happy_env [] (u "y") in
  let songs := map song_of_item sample_items in
  (forall sg, In sg songs -> scan_ok E sg) /\
  Permutation songs (env_order E songs) /\
  fst (download_all_songs E songs empty_world) = Ret tt.
Proof.
  intros E songs.
  assert (H1 : forall sg, In sg songs -> scan_ok E sg) by (intros; reflexivity).
  assert (H2 : Permutation songs (env_order E songs)) by apply Permutation_refl.
  split; [exact H1 | split; [exact H2 |]].
  exact (proj1 (coordinator_total_accounting E songs empty_world H1 H2)).
Defined.

(** C1 counterexample: with the directory scan raising, [future.result()]
    raises in the coordinator loop; the run ends with that exception and no
    count, let alone a summary, is produced for the submitted track. *)
Lemma coordinator_scan_error_no_summary :
  fst (download_all_songs scan_error_env [band_song] empty_world) = Exc scan_error /\
  ~ (exists tr d s f,
       w_trace (snd (download_all_songs scan_error_env [band_song] empty_world))
         = tr ++ summary_events d s f).
Proof.
  split; [reflexivity |].
  intros [tr [d [s [f H]]]]. apply (f_equal (@length event)) in H.
  assert (Hlen : length (w_trace (snd (download_all_songs scan_error_env [band_song] empty_world)))
                 = 3) by (vm_compute; reflexivity).
  rewrite Hlen, length_app in H. simpl in H. lia.
Qed.

(** ** Catalog fetch *)

(** The [(limit, offset)] of every page request in a trace. *)
Definition page_requests (tr : list event) : list (Z * Z) :=
  flat_map (fun ev => match ev with EPage l o => [(l, o)] | _ => [] end) tr.

Lemma page_requests_app a b : page_requests (a ++ b) = page_requests a ++ page_requests b.
Proof. apply flat_map_app. Qed.

Lemma fetch_loop_pages E fuel :
  forall n offset acc w songs w',
    offset = (limit * Z.of_nat n)%Z ->
    fetch_loop E fuel n offset acc w = (Ret songs, w') ->
    exists pages,
      (forall i its, nth_error pages i = Some its ->
         env_page E (n + i) limit (limit * Z.of_nat (n + i)) = inr its /\ its <> []) /\
      env_page E (n + length pages) limit (limit * Z.of_nat (n + length pages)) = inr [] /\
      page_requests (w_trace w')
        = page_requests (w_trace w)
          ++ map (fun i => (limit, limit * Z.of_nat i)%Z) (seq n (S (length pages))) /\
      songs = acc ++ concat (map (map song_of_item) pages).
Proof.
  induction fuel as [| fuel IH]; intros n offset acc w songs w' Hoff Hrun;
    [discriminate Hrun |].
  simpl in Hrun. unfold current_user_saved_tracks, bind, emit, raise, ret in Hrun.
  subst offset.
  destruct (env_page E n limit (limit * Z.of_nat n)) as [e | [| it its]] eqn:Hpage;
    [discriminate Hrun | |].
  - injection Hrun as <- <-. exists []. split; [intros [] ? H; discriminate H |].
    rewrite Nat.add_0_r. split; [exact Hpage |]. split.
    + simpl. rewrite page_requests_app. reflexivity.
    + rewrite app_nil_r. reflexivity.
  - apply IH in Hrun; [| rewrite Nat2Z.inj_succ; lia].
    destruct Hrun as [pages [Hp [Hlast [Hreq Hsongs]]]].
    exists ((it :: its) :: pages). split; [| split; [| split]].
    + intros [| i] its' Hi; simpl in Hi.
      * injection Hi as <-. rewrite Nat.add_0_r. split; [exact Hpage | discriminate].
      * rewrite <- Nat.add_succ_comm. apply Hp. exact Hi.
    + simpl. rewrite <- Nat.add_succ_comm. exact Hlast.
    + rewrite Hreq. cbn [w_trace]. rewrite !page_requests_app.
      change (seq n (S (length ((it :: its) :: pages))))
        with (n :: seq (S n) (S (length pages))).
      cbn [map].
      change (page_requests [EPage limit (limit * Z.of_nat n)])
        with [(limit, (limit * Z.of_nat n)%Z)].
      change (page_requests [EPrintN _ _ _]) with (@nil (Z * Z)).
      rewrite app_nil_r, <- app_assoc. reflexivity.
    + rewrite Hsongs, <- app_assoc. reflexivity.
Qed.

Lemma list_sum_length_concat {A} (pages : list (list A)) :
  length (concat pages) = list_sum (map (@length A) pages).
Proof.
  induction pages as [| p pages IH]; simpl; [reflexivity |].
  rewrite length_app, IH. reflexivity.
Qed.

(** C5: [get_liked_songs] requests pages at offsets [0, 50, 100, ...]
    ([limit = 50] more at each call), stops at the first page with no item,
    and returns the projected items of the non-empty pages before it, in
    page order; its length is the sum of their sizes. *)
Theorem get_liked_songs_pagination :
  forall E fuel w songs w',
    get_liked_songs E true fuel w = (Ret songs, w') ->
    exists pages : list (list item),
      (forall i its, nth_error pages i = Some its ->
         env_page E i limit (limit * Z.of_nat i) = inr its /\ its <> []) /\
      env_page E (length pages) limit (limit * Z.of_nat (length pages)) = inr [] /\
      page_requests (w_trace w')
        = page_requests (w_trace w)
          ++ map (fun i => (limit, limit * Z.of_nat i)%Z) (seq 0 (S (length pages))) /\
      limit = 50%Z /\
      songs = concat (map (map song_of_item) pages) /\
      length songs = list_sum (map (@length item) pages).
Proof.
  intros E fuel w songs w' Hrun.
  unfold get_liked_songs, print, bind, emit, ret in Hrun.
  change (negb true) with false in Hrun. cbv beta iota in Hrun.
  match type of Hrun with
  | context [fetch_loop E fuel 0 0 [] ?w0] =>
      destruct (fetch_loop E fuel 0 0 [] w0) as [[liked | e |] w1] eqn:Hf;
      try discriminate Hrun
  end.
  injection Hrun as <- <-.
  apply fetch_loop_pages in Hf; [| reflexivity].
  destruct Hf as [pages [Hp [Hlast [Hreq Hsongs]]]].
  exists pages. split; [| split; [| split; [| split; [| split]]]].
  - intros i its Hi. apply (Hp i its Hi).
  - exact Hlast.
  - cbn [w_trace]. rewrite page_requests_app, Hreq. cbn [w_trace].
    rewrite page_requests_app.
    change (page_requests [EPrint _]) with (@nil (Z * Z)).
    change (page_requests [EPrintN _ _ _]) with (@nil (Z * Z)).
    rewrite !app_nil_r. reflexivity.
  - reflexivity.
  - exact Hsongs.
  - rewrite Hsongs. simpl. rewrite list_sum_length_concat, map_map.
    f_equal. apply map_ext. intro p. apply length_map.
Qed.

Lemma get_liked_songs_pagination_witness :
  let E := happy_env [sample_items] (u "y") in
  get_liked_songs E true 5 empty_world
    = (Ret (map song_of_item sample_items),
       snd (get_liked_songs E true 5 empty_world)) /\
  exists pages : list (list item), list_sum (map (@length item) pages) = 2.
Proof.
  intro E. split; [reflexivity |].
  destruct (get_liked_songs_pagination E 5 empty_world (map song_of_item sample_items)
              (snd (get_liked_songs E true 5 empty_world)) eq_refl)
    as [pages [_ [_ [_ [_ [_ Hlen]]]]]].
  exists pages. rewrite <- Hlen. reflexivity.
Defined.

Lemma process_no_diverge E order :
  forall a b c w, fst (process E order a b c w) <> Diverge.
Proof.
  induction order as [| sg rest IH]; intros a b c w; [discriminate |].
  simpl. unfold bind at 1, attempt.
  pose proof (task_no_diverge E sg w) as Hnd.
  destruct (search_and_download_song E sg w) as [[m | e |] w1]; [| | contradiction].
  - unfold bind at 1, print, emit.
    repeat match goal with |- context [if ?cond then _ else _] => destruct cond end;
      apply IH.
  - unfold bind, raise. pose proof (drain_ret E rest w1) as Hd.
    destruct (drain E rest w1) as [o w2]. cbn [fst] in Hd |- *. subst o. discriminate.
Qed.

Lemma download_all_songs_no_diverge E songs w :
  fst (download_all_songs E songs w) <> Diverge.
Proof.
  unfold download_all_songs, bind, print, emit. cbn [w_trace w_dir].
  match goal with
  | |- context [process E ?o 0 0 0 ?w0] =>
      pose proof (process_no_diverge E o 0 0 0 w0) as Hnd;
      destruct (process E o 0 0 0 w0) as [[[[d f] s] | e |] w1]
  end; cbn [fst] in Hnd |- *; [| discriminate | contradiction].
  rewrite emit_all_run. discriminate.
Qed.

(** ** Re-running the coordinator *)

Definition live_song : song := mk_song (u "Song [Live]") (u "Band") (u "X") 200000 50.

(** C6 (code bug): a fully successful first run writes
    [Band - Song [Live].mp3]; on the second run over the same directory the
    existence check misses that file (C3's unescaped glob), so the task
    searches and downloads again and the summary counts no skip. *)
Theorem rerun_bracket_title_not_skipped :
  let E := happy_env [] (u "y") in
  let w1 := snd (download_all_songs E [live_song] empty_world) in
  let w2 := snd (download_all_songs E [live_song] (mk_world [] (w_dir w1))) in
  fst (download_all_songs E [live_song] empty_world) = Ret tt /\
  In (EPrint (downloaded_msg (u "Band - Song [Live]"))) (w_trace (snd (download_all_songs E [live_song] empty_world))) /\
  w_dir w1 = [u "Band - Song [Live].mp3"] /\
  existsb (prefixb (sanitize_filename (u "Band - Song [Live]"))) (w_dir w1) = true /\
  In (EPrint (downloaded_msg (u "Band - Song [Live]"))) (w_trace w2) /\
  ~ In (EPrint (skipped_msg (u "Band - Song [Live]"))) (w_trace w2) /\
  In (EPrintN (skip_mark ++ u "  Skipped (already existed): ") 0 []) (w_trace w2).
Proof.
  vm_compute.
  split; [reflexivity |].
  split; [repeat (first [left; reflexivity | right]) |].
  split; [reflexivity |]. split; [reflexivity |].
  split; [repeat (first [left; reflexivity | right]) |].
  split; [intro H; repeat (destruct H as [H | H]; [discriminate H |]); exact H |].
  repeat (first [left; reflexivity | right]).
Qed.

(** ** [main] *)

Lemma fetch_loop_page_error E e :
  forall k fuel n acc w,
    (forall i, i < k -> exists its,
       env_page E (n + i) limit (limit * Z.of_nat (n + i)) = inr its /\ its <> []) ->
    env_page E (n + k) limit (limit * Z.of_nat (n + k)) = inl e ->
    k < fuel ->
    fst (fetch_loop E fuel n (limit * Z.of_nat n) acc w) = Exc e.
Proof.
  induction k as [| k IH]; intros fuel n acc w Hne Herr Hk;
    (destruct fuel as [| fuel]; [lia |]); cbn [fetch_loop];
    unfold current_user_saved_tracks, bind, emit, raise, ret.
  - rewrite Nat.add_0_r in Herr. rewrite Herr. reflexivity.
  - destruct (Hne 0 ltac:(lia)) as [its [Hp Hnz]]. rewrite Nat.add_0_r in Hp.
    rewrite Hp. destruct its as [| it its]; [contradiction |].
    cbn [fst].
    replace (limit * Z.of_nat n + limit)%Z with (limit * Z.of_nat (S n))%Z
      by (rewrite Nat2Z.inj_succ; lia).
    apply IH; [| rewrite <- Nat.add_succ_comm in Herr; exact Herr | lia].
    intros i Hi. replace (S n + i) with (n + S i) by lia. apply Hne. lia.
Qed.

Lemma get_liked_songs_page_error E e fuel k :
  (forall i, i < k -> exists its,
     env_page E i limit (limit * Z.of_nat i) = inr its /\ its <> []) ->
  env_page E k limit (limit * Z.of_nat k) = inl e ->
  k < fuel ->
  forall w, fst (get_liked_songs E true fuel w) = Exc e.
Proof.
  intros Hne Herr Hk w. unfold get_liked_songs, print, bind, emit.
  change (negb true) with false. cbv beta iota.
  match goal with
  | |- context [fetch_loop E fuel 0 0 [] ?w0] =>
      pose proof (fetch_loop_page_error E e k fuel 0 [] w0 Hne Herr Hk) as H;
      change (limit * Z.of_nat 0)%Z with 0%Z in H;
      destruct (fetch_loop E fuel 0 0 [] w0) as [[a | e' |] w1]
  end; cbn [fst] in H |- *; congruence.
Qed.

Definition main_prelude : list event :=
  [EPrint (u "Spotify Liked Songs Downloader"); EPrint (repeat 61%N 40);
   EMkdir download_folder; EAuth;
   EPrint (check_mark ++ u " Successfully authenticated with Spotify")].

Ltac unfold_main :=
  unfold main, bind, print, emit, try_except, authenticate_spotify,
    save_playlist_info, input, ret.

(** Up to the catalog fetch, [main] emits [main_prelude] and nothing else. *)
Lemma main_to_fetch CLIENT_ID E fuel w :
  ustr_eqb CLIENT_ID placeholder_client_id = false ->
  env_auth E = None ->
  main CLIENT_ID E fuel w
  = try_except (fun w0 => bind (get_liked_songs E true fuel)
                               (fun liked_songs =>
                                  match liked_songs with
                                  | [] => print (u "No liked songs found!")
                                  | _ :: _ =>
                                      save_playlist_info E liked_songs ;;;
                                      response <- input E (length liked_songs) ;;
                                      if negb (ustr_eqb (lower response) (u "y"))
                                      then print (u "Download cancelled.")
                                      else download_all_songs E liked_songs
                                  end) w0)
               (fun e => print (cross_mark ++ u " An error occurred: " ++ e))
               (mk_world (w_trace w ++ main_prelude) (w_dir w)).
Proof.
  intros Hcid Hauth. unfold main. rewrite Hcid.
  unfold bind at 1 2, print at 1 2, emit at 1 2. cbn [w_trace w_dir].
  unfold try_except at 1 2. unfold bind at 1 2, emit at 1, authenticate_spotify.
  rewrite Hauth. unfold bind at 1, emit at 1, print at 1, emit at 1. cbn [w_trace w_dir].
  unfold main_prelude. rewrite <- !app_assoc. reflexivity.
Qed.

Ltac forall_app :=
  repeat match goal with
         | |- Forall _ (_ ++ _) => apply Forall_app; split
         | |- Forall _ (_ :: _) => constructor; [reflexivity |]
         | |- Forall _ [] => constructor
         | |- Forall _ main_prelude => unfold main_prelude
         end; try assumption.

(** C10: when the fetched catalog is empty, [main] reports that no song was
    found and returns: before that message it wrote no snapshot, showed no
    prompt and started no search or download, and nothing follows it. *)
Theorem empty_catalog_returns_early :
  forall CLIENT_ID E fuel w,
    ustr_eqb CLIENT_ID placeholder_client_id = false ->
    env_auth E = None ->
    (forall w0, fst (get_liked_songs E true fuel w0) = Ret []) ->
    fst (main CLIENT_ID E fuel w) = Ret tt /\
    exists tr,
      w_trace (snd (main CLIENT_ID E fuel w))
        = w_trace w ++ tr ++ [EPrint (u "No liked songs found!")] /\
      Forall (fun ev => download_phase ev = false) tr.
Proof.
  intros CLIENT_ID E fuel w Hcid Hauth Hf.
  rewrite (main_to_fetch CLIENT_ID E fuel w Hcid Hauth).
  set (w0 := mk_world (w_trace w ++ main_prelude) (w_dir w)).
  unfold try_except, bind.
  pose proof (Hf w0) as H0.
  destruct (get_liked_songs_extends E true fuel w0) as [tr [Htr Hall]].
  destruct (get_liked_songs E true fuel w0) as [o w2]. cbn [fst snd] in H0, Htr. subst o.
  unfold print, emit. cbn [fst snd w_trace]. split; [reflexivity |].
  exists (main_prelude ++ tr). split.
  - rewrite Htr. unfold w0. cbn [w_trace]. rewrite <- !app_assoc. reflexivity.
  - forall_app.
Qed.

Lemma empty_catalog_returns_early_witness :
  let E := happy_env [] (u "y") in
  ustr_eqb (u "my_client_id") placeholder_client_id = false /\
  env_auth E = None /\
  (forall w0, fst (get_liked_songs E true 3 w0) = Ret []) /\
  fst (main (u "my_client_id") E 3 empty_world) = Ret tt.
Proof.
  intro E.
  assert (H1 : ustr_eqb (u "my_client_id") placeholder_client_id = false) by reflexivity.
  assert (H2 : env_auth E = None) by reflexivity.
  assert (H3 : forall w0, fst (get_liked_songs E true 3 w0) = Ret []) by (intro; reflexivity).
  split; [exact H1 | split; [exact H2 | split; [exact H3 |]]].
  exact (proj1 (empty_catalog_returns_early (u "my_client_id") E 3 empty_world H1 H2 H3)).
Defined.

(** C8 (corrected): in a run whose catalog fetch returns a non-empty
    catalog, [main] returns normally. If opening and writing
    [playlist_info.json] succeed, it writes the snapshot exactly once: to
    [Downloaded_Music/playlist_info.json], UTF-8, indent 2, non-ASCII kept,
    one object per song in catalog order with the fields [name], [artist],
    [album], [duration_ms], [popularity] in that order; before it no prompt,
    search or download happens and after it no other snapshot is written.
    If [open] or [json.dump] raises, no snapshot is written, and the run
    ends with [An error occurred: <message>], with no prompt, search or
    download. *)
Theorem snapshot_written_once_before_downloads :
  forall CLIENT_ID E fuel w songs,
    ustr_eqb CLIENT_ID placeholder_client_id = false ->
    env_auth E = None ->
    (forall w0, fst (get_liked_songs E true fuel w0) = Ret songs) ->
    songs <> [] ->
    fst (main CLIENT_ID E fuel w) = Ret tt /\
    (env_save E = SaveOk ->
     exists pre post,
      w_trace (snd (main CLIENT_ID E fuel w))
        = w_trace w ++ pre
          ++ [ESnapshot (u "Downloaded_Music/playlist_info.json") (u "utf-8") 2 false
                        (map song_json songs)]
          ++ post /\
      Forall (fun ev => download_phase ev = false) pre /\
      Forall (fun ev => is_snapshot ev = false) post /\
      map (map fst) (map song_json songs)
        = repeat [u "name"; u "artist"; u "album"; u "duration_ms"; u "popularity"]
                 (length songs)) /\
    (forall e, env_save E = SaveOpenRaises e \/ env_save E = SaveDumpRaises e ->
     exists tr,
      w_trace (snd (main CLIENT_ID E fuel w))
        = w_trace w ++ tr ++ [EPrint (cross_mark ++ u " An error occurred: " ++ e)] /\
      Forall (fun ev => download_phase ev = false) tr).
Proof.
  intros CLIENT_ID E fuel w songs Hcid Hauth Hf Hne.
  assert (Hkeys : map (map fst) (map song_json songs)
        = repeat [u "name"; u "artist"; u "album"; u "duration_ms"; u "popularity"]
                 (length songs))
    by (clear; induction songs as [| sg songs IH]; simpl; [reflexivity | rewrite IH; reflexivity]).
  rewrite (main_to_fetch CLIENT_ID E fuel w Hcid Hauth).
  set (w0 := mk_world (w_trace w ++ main_prelude) (w_dir w)).
  unfold try_except, bind.
  pose proof (Hf w0) as H0.
  destruct (get_liked_songs_extends E true fuel w0) as [tr [Htr Hall]].
  destruct (get_liked_songs E true fuel w0) as [o w2]. cbn [fst snd] in H0, Htr. subst o.
  destruct songs as [| sg rest]; [contradiction |].
  unfold save_playlist_info.
  destruct (env_save E) as [| e0 | e0] eqn:Hsave.
  - unfold input, bind, print, emit, ret, write_file. cbn [w_trace w_dir fst snd].
    destruct (negb _).
    + split; [reflexivity |]. split; [| intros e [He | He]; discriminate He].
      intros _. rewrite Htr. unfold w0. cbn [w_trace].
      rewrite <- !app_assoc.
      exists (main_prelude ++ tr). eexists. split; [rewrite <- (app_assoc main_prelude tr); reflexivity |].
      split; [forall_app |]. split; [forall_app | exact Hkeys].
    + match goal with
      | |- context [download_all_songs E ?s ?w4] =>
          destruct (download_all_songs_extends E s w4) as [tr5 [Htr5 Hall5]];
          pose proof (download_all_songs_no_diverge E s w4) as Hnd;
          destruct (download_all_songs E s w4) as [[[] | e |] w5]
      end;
      cbn [fst snd w_trace] in Htr5, Hnd |- *; try contradiction;
      (split; [reflexivity |]); (split; [| intros e' [He | He]; discriminate He]);
      intros _; rewrite Htr5; cbn [w_trace]; rewrite Htr; unfold w0; cbn [w_trace];
      rewrite <- !app_assoc;
      exists (main_prelude ++ tr); eexists;
      (split; [rewrite <- (app_assoc main_prelude tr); reflexivity |]);
      (split; [forall_app |]); (split; [forall_app | exact Hkeys]).
  - unfold raise, print, emit, bind. cbn [fst snd w_trace].
    split; [reflexivity |]. split; [intro H; discriminate H |].
    intros e [He | He]; [| discriminate He]. injection He as <-.
    exists (main_prelude ++ tr). split; [| forall_app].
    rewrite Htr. unfold w0. cbn [w_trace]. rewrite <- !app_assoc. reflexivity.
  - unfold raise, print, emit, write_file, bind. cbn [fst snd w_trace].
    split; [reflexivity |]. split; [intro H; discriminate H |].
    intros e [He | He]; [discriminate He |]. injection He as <-.
    exists (main_prelude ++ tr). split; [| forall_app].
    rewrite Htr. unfold w0. cbn [w_trace]. rewrite <- !app_assoc. reflexivity.
Qed.

Lemma snapshot_written_once_before_downloads_witness :
  let E := happy_env [sample_items] (u "y") in
  let songs := map song_of_item sample_items in
  ustr_eqb (u "my_client_id") placeholder_client_id = false /\
  env_auth E = None /\
  (forall w0, fst (get_liked_songs E true 5 w0) = Ret songs) /\
  songs <> [] /\
  fst (main (u "my_client_id") E 5 empty_world) = Ret tt.
Proof.
  intros E songs.
  assert (H1 : ustr_eqb (u "my_client_id") placeholder_client_id = false) by reflexivity.
  assert (H2 : env_auth E = None) by reflexivity.
  assert (H3 : forall w0, fst (get_liked_songs E true 5 w0) = Ret songs) by (intro; reflexivity).
  assert (H4 : songs <> []) by discriminate.
  split; [exact H1 | split; [exact H2 | split; [exact H3 | split; [exact H4 |]]]].
  exact (proj1 (snapshot_written_once_before_downloads (u "my_client_id") E 5 empty_world
                  songs H1 H2 H3 H4)).
Defined.

(** C8 counterexample: a run whose catalog is empty ends normally without
    writing [playlist_info.json]. *)
Lemma empty_catalog_no_snapshot :
  let E := happy_env [] (u "y") in
  fst (main (u "my_client_id") E 3 empty_world) = Ret tt /\
  forallb (fun ev => negb (is_snapshot ev))
          (w_trace (snd (main (u "my_client_id") E 3 empty_world))) = true.
Proof. split; vm_compute; reflexivity. Qed.

(** C9 (corrected): when authentication raises, or a catalog page request
    raises after only non-empty pages, the fetch yields no catalog, [main]
    prints [An error occurred: <message>] as its last output, starts no
    snapshot, prompt, search or download, and returns normally: the process
    exits with status 0. *)
Theorem fatal_error_reported_exit_zero :
  forall CLIENT_ID E fuel w e,
    ustr_eqb CLIENT_ID placeholder_client_id = false ->
    (env_auth E = Some e \/
     (env_auth E = None /\
      exists k, k < fuel /\
        (forall i, i < k -> exists its,
           env_page E i limit (limit * Z.of_nat i) = inr its /\ its <> []) /\
        env_page E k limit (limit * Z.of_nat k) = inl e)) ->
    (env_auth E = None -> forall w0, fst (get_liked_songs E true fuel w0) = Exc e) /\
    fst (main CLIENT_ID E fuel w) = Ret tt /\
    exit_code (fst (main CLIENT_ID E fuel w)) = Some 0%Z /\
    exists tr,
      w_trace (snd (main CLIENT_ID E fuel w))
        = w_trace w ++ tr ++ [EPrint (cross_mark ++ u " An error occurred: " ++ e)] /\
      Forall (fun ev => download_phase ev = false) tr.
Proof.
  intros CLIENT_ID E fuel w e Hcid [Hauth | [Hauth [k [Hk [Hne Herr]]]]].
  - split; [rewrite Hauth; discriminate |].
    unfold main, bind, print, emit, try_except, authenticate_spotify, raise.
    rewrite Hcid, Hauth. cbn [w_trace w_dir fst snd].
    split; [reflexivity | split; [reflexivity |]].
    exists [EPrint (u "Spotify Liked Songs Downloader"); EPrint (repeat 61%N 40);
            EMkdir download_folder].
    split; [rewrite <- !app_assoc; reflexivity | forall_app].
  - pose proof (get_liked_songs_page_error E e fuel k Hne Herr Hk) as Hf.
    split; [intros _; exact Hf |].
    rewrite (main_to_fetch CLIENT_ID E fuel w Hcid Hauth).
    set (w0 := mk_world (w_trace w ++ main_prelude) (w_dir w)).
    unfold try_except, bind.
    pose proof (Hf w0) as H0.
    destruct (get_liked_songs_extends E true fuel w0) as [tr [Htr Hall]].
    destruct (get_liked_songs E true fuel w0) as [o w2]. cbn [fst snd] in H0, Htr. subst o.
    unfold print, emit. cbn [fst snd w_trace].
    split; [reflexivity | split; [reflexivity |]].
    exists (main_prelude ++ tr). split.
    + rewrite Htr. unfold w0. cbn [w_trace]. rewrite <- !app_assoc. reflexivity.
    + forall_app.
Qed.

Definition expired_token : ustr := u "http status: 401, code: -1 - The access token expired".

(** Spotify answers the first page request with an error. *)
Definition expired_token_env : env :=
  mk_env None (fun _ _ _ => inl expired_token) (u "y") (fun _ => None)
         (fun sq => SearchInfo (Some [u "url:" ++ sq]))
         (fun _ => DownloadWrites (u "webm") (u "mp3")) (fun songs => songs) SaveOk.

Lemma fatal_error_reported_exit_zero_witness :
  ustr_eqb (u "my_client_id") placeholder_client_id = false /\
  exit_code (fst (main (u "my_client_id") expired_token_env 3 empty_world)) = Some 0%Z.
Proof.
  assert (H1 : ustr_eqb (u "my_client_id") placeholder_client_id = false) by reflexivity.
  split; [exact H1 |].
  refine (proj1 (proj2 (proj2 (fatal_error_reported_exit_zero (u "my_client_id")
            expired_token_env 3 empty_world expired_token H1 _)))).
  right. split; [reflexivity |]. exists 0. split; [lia |].
  split; [intros i Hi; lia | reflexivity].
Defined.

(** C9 counterexample: the catalog request fails, the message is printed,
    and the process exit status is 0, not a non-zero one. *)
Lemma catalog_error_exit_status_zero :
  exit_code (fst (main (u "my_client_id") expired_token_env 3 empty_world)) = Some 0%Z /\
  In (EPrint (cross_mark ++ u " An error occurred: " ++ expired_token))
     (w_trace (snd (main (u "my_client_id") expired_token_env 3 empty_world))).
Proof.
  split; [reflexivity |]. vm_compute. repeat (first [left; reflexivity | right]).
Qed.

(** ** Further properties of the program *)

(** *** String lemmas *)

Lemma ustr_eqb_eq a b : ustr_eqb a b = true <-> a = b.
Proof.
  revert b; induction a as [| x a IH]; intros [| y b]; simpl;
    split; intro H; try discriminate; try reflexivity.
  - apply andb_prop in H as [H1 H2]. apply N.eqb_eq in H1. apply IH in H2. subst. reflexivity.
  - injection H as <- <-. rewrite N.eqb_refl. simpl. apply IH. reflexivity.
Qed.

Lemma prefixb_app p s r : prefixb p s = true -> prefixb p (s ++ r) = true.
Proof.
  revert s; induction p as [| x p IH]; intros [| y s] H; simpl in *; auto; try discriminate.
  apply andb_prop in H as [H1 H2]. rewrite H1, IH; auto.
Qed.


Lemma suffixes_self s : In s (suffixes s).
Proof. destruct s; simpl; auto. Qed.

Lemma suffixes_app_r p q s : In s (suffixes q) -> In s (suffixes (p ++ q)).
Proof. induction p as [| x p IH]; simpl; auto. Qed.

Lemma suffixes_app_l p r s : In s (suffixes p) -> In (s ++ r) (suffixes (p ++ r)).
Proof.
  revert s; induction p as [| x p IH]; intros s Hs; simpl in Hs.
  - destruct Hs as [<- | []]. apply suffixes_self.
  - destruct Hs as [<- | Hs]; [simpl; left; reflexivity | simpl; right; auto].
Qed.

Lemma contains_app_r n p q : contains n q = true -> contains n (p ++ q) = true.
Proof.
  unfold contains. rewrite !existsb_exists. intros [s [Hs Hp]].
  exists s. split; [apply suffixes_app_r |]; assumption.
Qed.

Lemma contains_app_l n p r : contains n p = true -> contains n (p ++ r) = true.
Proof.
  unfold contains. rewrite !existsb_exists. intros [s [Hs Hp]].
  exists (s ++ r). split; [apply suffixes_app_l | apply prefixb_app]; assumption.
Qed.

(** *** The task, run to completion *)

(** With the directory scan succeeding, the whole task: the skip test on
    the current listing, one search, and at most one download. *)
Lemma task_run E sg w :
  let query := artist sg ++ u " - " ++ name sg in
  let safe := sanitize_filename (artist sg ++ u " - " ++ name sg) in
  let sq := u "ytsearch1:" ++ query in
  scan_ok E sg ->
  search_and_download_song E sg w =
    if exists_check (w_dir w) safe then (Ret (skipped_msg query), w) else
    let w1 := mk_world (w_trace w ++ [ESearch sq]) (w_dir w) in
    match env_search E sq with
    | SearchRaises e => (Ret (error_msg query e), w1)
    | SearchInfo (Some (url :: _)) =>
        let w2 := snd (ydl_download E url (download_folder ++ u "/" ++ safe ++ u ".%(ext)s")
                                    safe w1) in
        match env_download E url with
        | DownloadRaises _ e => (Ret (error_msg query e), w2)
        | DownloadWrites _ _ => (Ret (downloaded_msg query), w2)
        end
    | SearchInfo _ => (Ret (not_found_msg query), w1)
    end.
Proof.
  intros query safe sq Hs. unfold scan_ok in Hs. fold safe in Hs.
  unfold exists_check. change [42%N] with (u "*").
  unfold_task. fold safe; fold query. rewrite Hs. fold sq.
  destruct (glob_names (w_dir w) (safe ++ u "*")); [| reflexivity].
  destruct (env_search E sq) as [e | [[| url rest] |]]; unfold bind; cbn [w_trace w_dir];
    try reflexivity.
  cbv zeta. run_download; reflexivity.
Qed.

Lemma task_result_mentions_query E sg w :
  scan_ok E sg ->
  exists m, fst (search_and_download_song E sg w) = Ret m /\
    forall n, contains n (artist sg ++ u " - " ++ name sg) = true -> contains n m = true.
Proof.
  intro Hs. rewrite (task_run E sg w Hs).
  destruct (exists_check _ _);
    [| cbv zeta; destruct (env_search E _) as [e | [[| url rest] |]];
       [| | destruct (env_download E url) |]];
    eexists; (split; [reflexivity |]); intros n Hn;
    unfold skipped_msg, downloaded_msg, not_found_msg, error_msg;
    repeat (first [exact Hn | (apply contains_app_l; exact Hn) | apply contains_app_r]).
Qed.




(** Characters kept by the sanitizer are neither [*] nor [?]; a [[] is
    kept when present. *)
Lemma sanitize_no_glob_meta q :
  ~ In 91%N q -> forallb (fun c => negb (glob_meta c)) (sanitize_filename q) = true.
Proof.
  induction q as [| c q IH]; intro Hq; [reflexivity |]. cbn [sanitize_filename].
  destruct (is_reserved c) eqn:Hr; [apply IH; intro H; apply Hq; right; exact H |].
  cbn [forallb]. apply andb_true_intro. split; [| apply IH; intro H; apply Hq; right; exact H].
  unfold glob_meta. apply negb_true_iff.
  destruct (N.eqb_spec c 42); [subst; discriminate |].
  destruct (N.eqb_spec c 63); [subst; discriminate |].
  destruct (N.eqb_spec c 91); [subst; exfalso; apply Hq; left; reflexivity |].
  reflexivity.
Qed.


(** The identifier a track is stored under is the sanitized artist and the
    sanitized title around an intact [ - ]. *)
Theorem sanitize_query_splits sg :
  sanitize_filename (artist sg ++ u " - " ++ name sg)
  = sanitize_filename (artist sg) ++ u " - " ++ sanitize_filename (name sg).
Proof. rewrite !sanitize_filename_filter, !filter_app. reflexivity. Qed.

(** For a track whose [artist - name] holds no [[], the existence check is
    exactly a prefix test: it holds iff some entry of the folder starts with
    the sanitized identifier. *)
Theorem existence_check_prefix_test listing sg :
  ~ In 91%N (artist sg ++ u " - " ++ name sg) ->
  exists_check listing (sanitize_filename (artist sg ++ u " - " ++ name sg))
  = existsb (prefixb (sanitize_filename (artist sg ++ u " - " ++ name sg))) listing.
Proof. intro H. apply exists_check_prefix, sanitize_no_glob_meta, H. Qed.

Lemma existence_check_prefix_test_witness :
  ~ In 91%N (artist band_song ++ u " - " ++ name band_song) /\
  exists_check [u "Band - Song (Remastered).mp3"; u "Other.mp3"]
    (sanitize_filename (artist band_song ++ u " - " ++ name band_song)) = true.
Proof.
  assert (H : ~ In 91%N (artist band_song ++ u " - " ++ name band_song)).
  { simpl. intro H. repeat (destruct H as [H | H]; [discriminate H |]). exact H. }
  split; [exact H |].
  rewrite (existence_check_prefix_test _ band_song H). reflexivity.
Defined.

(** A task skips without any effect when the existence check holds;
    otherwise it runs exactly one search, for [ytsearch1:artist - name],
    followed by at most one download: of the first search entry, with the
    output template [Downloaded_Music/<identifier>.%(ext)s]. *)
Theorem task_skips_or_searches_once E sg w :
  let query := artist sg ++ u " - " ++ name sg in
  let safe := sanitize_filename (artist sg ++ u " - " ++ name sg) in
  scan_ok E sg ->
  (exists_check (w_dir w) safe = true ->
     search_and_download_song E sg w = (Ret (skipped_msg query), w)) /\
  (exists_check (w_dir w) safe = false ->
     w_trace (snd (search_and_download_song E sg w))
       = w_trace w ++ [ESearch (u "ytsearch1:" ++ query)] \/
     exists url rest,
       env_search E (u "ytsearch1:" ++ query) = SearchInfo (Some (url :: rest)) /\
       w_trace (snd (search_and_download_song E sg w))
         = w_trace w ++ [ESearch (u "ytsearch1:" ++ query);
                         EDownload url (download_folder ++ u "/" ++ safe ++ u ".%(ext)s")]).
Proof.
  intros query safe Hs. rewrite (task_run E sg w Hs). fold safe; fold query.
  split; intro Hx; rewrite Hx; [reflexivity |]. cbv zeta.
  destruct (env_search E (u "ytsearch1:" ++ query)) as [e | [[| url rest] |]] eqn:Hse;
    try (left; reflexivity).
  right. exists url, rest. split; [reflexivity |].
  match goal with |- context [ydl_download E url ?b ?c ?d] =>
    destruct (ydl_download_run E url b c d) as [dir Hd]; rewrite Hd end.
  destruct (env_download E url); cbn [snd w_trace]; rewrite <- app_assoc; reflexivity.
Qed.

Lemma task_skips_or_searches_once_witness :
  let E := happy_env [] (u "y") in
  scan_ok E band_song /\
  exists_check (w_dir empty_world) (sanitize_filename (u "Band - Song")) = false /\
  (w_trace (snd (search_and_download_song E band_song empty_world))
     = [ESearch (u "ytsearch1:Band - Song")] \/
   exists url rest,
     env_search E (u "ytsearch1:Band - Song") = SearchInfo (Some (url :: rest)) /\
     w_trace (snd (search_and_download_song E band_song empty_world))
       = [ESearch (u "ytsearch1:Band - Song");
          EDownload url (u "Downloaded_Music/Band - Song.%(ext)s")]).
Proof.
  intro E.
  assert (H1 : scan_ok E band_song) by reflexivity.
  assert (H2 : exists_check (w_dir empty_world) (sanitize_filename (u "Band - Song")) = false)
    by reflexivity.
  split; [exact H1 | split; [exact H2 |]].
  exact (proj2 (task_skips_or_searches_once E band_song empty_world H1) H2).
Defined.




(** *** The coordinator's tally and folder *)

Lemma process_all_successful E order :
  (forall sg, In sg order ->
     scan_ok E sg /\ contains (u "Downloaded") (artist sg ++ u " - " ++ name sg) = true) ->
  forall a b c w, exists w',
    process E order a b c w = (Ret (a + length order, b, c), w').
Proof.
  induction order as [| sg rest IH]; intros Hall a b c w.
  - exists w. rewrite Nat.add_0_r. reflexivity.
  - destruct (Hall sg (or_introl eq_refl)) as [Hs Hq].
    destruct (task_result_mentions_query E sg w Hs) as [m [Hm Hc]].
    destruct (search_and_download_song E sg w) as [o w1] eqn:Ht. cbn [fst] in Hm. subst o.
    cbn [process]. unfold bind at 1, attempt. rewrite Ht. unfold bind at 1, print, emit.
    rewrite (Hc _ Hq).
    destruct (IH (fun sg' H => Hall sg' (or_intror H)) (S a) b c
                (mk_world (w_trace w1 ++ [EPrint m]) (w_dir w1))) as [w2 Hp].
    exists w2. rewrite Hp. cbn [length]. rewrite Nat.add_succ_comm. reflexivity.
Qed.

(** The tally classifies a printed result by substring: a track whose
    [artist - name] contains [Downloaded] is counted as successfully
    downloaded whatever its task reports (skipped, not found or an error).
    When every track is such a track, the summary reports all of them as
    downloaded and none as skipped or failed. *)
Theorem downloaded_in_title_counted_successful E songs w :
  (forall sg, In sg songs ->
     scan_ok E sg /\ contains (u "Downloaded") (artist sg ++ u " - " ++ name sg) = true) ->
  Permutation songs (env_order E songs) ->
  fst (download_all_songs E songs w) = Ret tt /\
  exists tr,
    w_trace (snd (download_all_songs E songs w))
      = w_trace w ++ tr ++ summary_events (length songs) 0 0.
Proof.
  intros Hall Hperm.
  assert (Hall' : forall sg, In sg (env_order E songs) ->
            scan_ok E sg /\ contains (u "Downloaded") (artist sg ++ u " - " ++ name sg) = true)
    by (intros sg Hin; apply Hall; eapply Permutation_in; [symmetry; exact Hperm | exact Hin]).
  unfold download_all_songs, bind, print, emit. cbn [w_trace w_dir fst snd].
  match goal with
  | |- context [process E ?o 0 0 0 ?w0] =>
      destruct (process_all_successful E o Hall' 0 0 0 w0) as [w1 Hp];
      destruct (process_extends E o 0 0 0 w0) as [tr [Htr _]]
  end.
  rewrite Hp in *. cbn [fst snd w_trace w_dir] in *. rewrite emit_all_run. cbn [fst snd w_trace].
  rewrite <- (Permutation_length Hperm). split; [reflexivity |].
  exists ([EPrintN (newline ++ u "Starting download of ") (length songs) (u " songs...");
           EPrint (u "Download folder: " ++ download_folder); EPrint dashes] ++ tr).
  rewrite Htr, <- !app_assoc. reflexivity.
Qed.

(** A track titled [Downloaded], and a search that finds no entry. *)
Definition downloaded_title_song : song := mk_song (u "Downloaded") (u "Band") (u "X") 200000 50.

Definition no_result_env : env :=
  mk_env None (sample_pages []) (u "y") (fun _ => None)
         (fun _ => SearchInfo (Some [])) (fun _ => DownloadWrites (u "webm") (u "mp3"))
         (fun songs => songs) SaveOk.

Lemma downloaded_in_title_counted_successful_witness :
  (forall sg, In sg [downloaded_title_song] ->
     scan_ok no_result_env sg /\
     contains (u "Downloaded") (artist sg ++ u " - " ++ name sg) = true) /\
  Permutation [downloaded_title_song] (env_order no_result_env [downloaded_title_song]) /\
  In (EPrint (not_found_msg (u "Band - Downloaded")))
     (w_trace (snd (download_all_songs no_result_env [downloaded_title_song] empty_world))) /\
  exists tr,
    w_trace (snd (download_all_songs no_result_env [downloaded_title_song] empty_world))
      = tr ++ summary_events 1 0 0.
Proof.
  assert (H1 : forall sg, In sg [downloaded_title_song] ->
     scan_ok no_result_env sg /\
     contains (u "Downloaded") (artist sg ++ u " - " ++ name sg) = true).
  { intros sg [<- | []]. split; reflexivity. }
  assert (H2 : Permutation [downloaded_title_song] (env_order no_result_env [downloaded_title_song]))
    by apply Permutation_refl.
  split; [exact H1 | split; [exact H2 | split]].
  - vm_compute. repeat (first [left; reflexivity | right]).
  - exact (proj2 (downloaded_in_title_counted_successful no_result_env
                    [downloaded_title_song] empty_world H1 H2)).
Defined.

(** *** [main]: the placeholder credentials and the confirmation prompt *)

(** With the [CLIENT_ID] placeholder the script ships with, [main] only
    prints: the title, the rule and the setup instructions. It creates no
    folder, never contacts Spotify, writes no snapshot, asks nothing and
    downloads nothing, and returns normally. *)
Theorem main_placeholder_only_prints E fuel w :
  fst (main placeholder_client_id E fuel w) = Ret tt /\
  w_dir (snd (main placeholder_client_id E fuel w)) = w_dir w /\
  exists msgs,
    w_trace (snd (main placeholder_client_id E fuel w)) = w_trace w ++ map EPrint msgs /\
    In (cross_mark ++ u " Please set up your Spotify API credentials first!") msgs.
Proof.
  unfold main, bind, print, emit. cbn [w_trace w_dir].
  rewrite (proj2 (ustr_eqb_eq placeholder_client_id placeholder_client_id) eq_refl).
  rewrite emit_all_run. cbn [fst snd w_trace w_dir].
  split; [reflexivity | split; [reflexivity |]].
  eexists. split.
  - rewrite <- !app_assoc. cbn [app]. f_equal.
    change (EPrint ?a :: EPrint ?b :: ?l) with (map EPrint [a; b] ++ l).
    instantiate (1 := _ :: _ :: _ :: _ :: _ :: _ :: _ :: _ :: _ :: []). reflexivity.
  - cbn [In]. right. right. left. reflexivity.
Qed.

(** When the typed answer, lower-cased, is not exactly [y] (an empty line,
    [n], [yes], a [y] with spaces) and the snapshot file is written without
    error, [main] writes the snapshot, asks once with the number of songs, prints [Download cancelled.] and returns:
    no search and no download happens. *)
Theorem main_declined_prompt_cancels CLIENT_ID E fuel w songs :
  ustr_eqb CLIENT_ID placeholder_client_id = false ->
  env_auth E = None ->
  (forall w0, fst (get_liked_songs E true fuel w0) = Ret songs) ->
  songs <> [] ->
  env_save E = SaveOk ->
  ustr_eqb (lower (env_answer E)) (u "y") = false ->
  fst (main CLIENT_ID E fuel w) = Ret tt /\
  exists tr,
    w_trace (snd (main CLIENT_ID E fuel w))
      = w_trace w ++ tr ++
        [ESnapshot playlist_file (u "utf-8") 2 false (map song_json songs);
         EPrint (check_mark ++ u " Playlist info saved to: " ++ playlist_file);
         EPrompt (length songs);
         EPrint (u "Download cancelled.")] /\
    Forall (fun ev => download_phase ev = false) tr.
Proof.
  intros Hcid Hauth Hf Hne Hsave Hy.
  rewrite (main_to_fetch CLIENT_ID E fuel w Hcid Hauth).
  set (w0 := mk_world (w_trace w ++ main_prelude) (w_dir w)).
  unfold try_except, bind.
  pose proof (Hf w0) as H0.
  destruct (get_liked_songs_extends E true fuel w0) as [tr [Htr Hall]].
  destruct (get_liked_songs E true fuel w0) as [o w2]. cbn [fst snd] in H0, Htr. subst o.
  destruct songs as [| sg rest]; [contradiction |].
  unfold save_playlist_info. rewrite Hsave.
  unfold write_file, input, bind, print, emit, ret. cbn [w_trace w_dir fst snd].
  rewrite Hy. cbn [negb w_trace fst snd].
  split; [reflexivity |]. exists (main_prelude ++ tr). split.
  - rewrite Htr. unfold w0. cbn [w_trace]. rewrite <- !app_assoc. reflexivity.
  - forall_app.
Qed.

Lemma main_declined_prompt_cancels_witness :
  let E := happy_env [sample_items] (u "n") in
  let songs := map song_of_item sample_items in
  ustr_eqb (u "my_client_id") placeholder_client_id = false /\
  env_auth E = None /\
  (forall w0, fst (get_liked_songs E true 5 w0) = Ret songs) /\
  songs <> [] /\
  env_save E = SaveOk /\
  ustr_eqb (lower (env_answer E)) (u "y") = false /\
  fst (main (u "my_client_id") E 5 empty_world) = Ret tt.
Proof.
  intros E songs.
  assert (H1 : ustr_eqb (u "my_client_id") placeholder_client_id = false) by reflexivity.
  assert (H2 : env_auth E = None) by reflexivity.
  assert (H3 : forall w0, fst (get_liked_songs E true 5 w0) = Ret songs) by (intro; reflexivity).
  assert (H4 : songs <> []) by discriminate.
  assert (H5 : env_save E = SaveOk) by reflexivity.
  assert (H6 : ustr_eqb (lower (env_answer E)) (u "y") = false) by reflexivity.
  split; [exact H1 | split; [exact H2 | split; [exact H3 | split; [exact H4 |]]]].
  split; [exact H5 | split; [exact H6 |]].
  exact (proj1 (main_declined_prompt_cancels (u "my_client_id") E 5 empty_world songs
                  H1 H2 H3 H4 H5 H6)).
Defined.

(** *** Progress messages of the catalog fetch *)






